(** * The NGP particle shape of PIConGPU

    A shallow embedding of [include/picongpu/particles/shapes/NGP.hpp]:
    the nearest-grid-point assignment function, its restriction to the
    support, and the published support width.

    The header computes on [float_X], the simulation's floating-point type.
    Values of that type are modelled by the standard library's IEEE 754
    specification [spec_float]; comparisons are the library's [SFleb] and
    [SFltb], so that signed zeros, infinities and NaN behave as they do in
    the compiled code. *)

From Stdlib Require Import ZArith QArith Qpower Qround Bool List Lia Lqa.
From Stdlib Require Import Qabs.
From Stdlib Require Import Floats.SpecFloat.
Import ListNotations.

Local Open Scope Z_scope.

(** ** The floating-point type [float_X] *)

(** [float_X] is an alias chosen in [simulation_defines.hpp], which is not
    among the sources at hand (PIConGPU builds with either a 32-bit or a
    64-bit type).  The binary format is therefore a parameter: [prec] bits
    of mantissa, the implicit one included, and [emax] the exponent of the
    infinities, with the two side conditions every IEEE format satisfies. *)
Class Precision : Type := {
  prec : Z;
  emax : Z;
  prec_gt_1 : 1 < prec;
  prec_lt_emax : prec < emax
}.

(** The two formats PIConGPU is built with: IEEE binary32 and binary64. *)
#[export] Instance precision32Bit : Precision :=
  {| prec := 24; emax := 128; prec_gt_1 := eq_refl; prec_lt_emax := eq_refl |}.

Definition precision64Bit : Precision :=
  {| prec := 53; emax := 1024; prec_gt_1 := eq_refl; prec_lt_emax := eq_refl |}.

Definition float_X : Type := spec_float.

Section FloatX.
Context {P : Precision}.

(** A value really is a [float_X] when it is canonical in the format. *)
Definition valid (x : float_X) : bool := valid_binary prec emax x.

(** Neither an infinity nor NaN: the value stands for a real number. *)
Definition is_real (x : float_X) : bool :=
  match x with
  | S754_zero _ | S754_finite _ _ _ => true
  | S754_infinity _ | S754_nan => false
  end.

(** The mantissa [2^(prec-1)] of a normalised power of two. *)
Definition msb : positive := Z.to_pos (2 ^ (prec - 1)).

(** The literal [0.5_X]. *)
Definition half_X : float_X := S754_finite false msb (- prec).

(** The literal [1.0_X]. *)
Definition one_X : float_X := S754_finite false msb (1 - prec).

(** The value [float_X( false )], positive zero. *)
Definition zero_X : float_X := S754_zero false.

(** The conversion [float_X( bool )]. *)
Definition float_X_of_bool (b : bool) : float_X :=
  if b then one_X else zero_X.

(** The real number a finite [float_X] stands for (0 for the others, which
    [is_real] excludes). *)
Definition SF2Q (x : float_X) : Q :=
  match x with
  | S754_finite s m e => (inject_Z (cond_Zopp s (Zpos m)) * 2 ^ e)%Q
  | _ => 0%Q
  end.

(** Float addition in the format, and the float sum of a list of weights. *)
Definition add_X (x y : float_X) : float_X := SFadd prec emax x y.

Definition sum_X (ws : list float_X) : float_X :=
  fold_right add_X zero_X ws.

(** Float subtraction in the format, rounded to nearest even. *)
Definition sub_X (x y : float_X) : float_X := SFsub prec emax x y.

(** The conversion [float_X( k )] of an integer. *)
Definition float_X_of_Z (k : Z) : float_X :=
  binary_normalize prec emax k 0 false.

End FloatX.

(** ** The header *)

Module shared_NGP.
Module NGP.

(** width of the support of this form_factor. This is the area where the
    function is non-zero. *)
Definition support : Z := 1.

End NGP.
End shared_NGP.

Module NGP.
Include shared_NGP.NGP.

Module ChargeAssignment.
Include shared_NGP.NGP.

Section Call.
Context {P : Precision}.

(** [operator()( float_X const x )]:
    W(x) = 1 if -1/2 <= x < 1/2, 0 otherwise.
    [-0.5_X] is the negation of the literal [0.5_X]; [<=], [<] and [&&]
    are the IEEE comparisons and the conjunction of [bool]. *)
Definition call (x : float_X) : float_X :=
  let below_half := SFleb (SFopp half_X) x && SFltb x half_X in
  float_X_of_bool below_half.

End Call.
End ChargeAssignment.

Module ChargeAssignmentOnSupport.
Include shared_NGP.NGP.

Section Call.
Context {P : Precision}.

(** [operator()( float_X const )]: W(x) = 1; the argument is unnamed. *)
Definition call (_ : float_X) : float_X := one_X.

End Call.
End ChargeAssignmentOnSupport.

End NGP.

(** ** Assignment to a grid *)

(** The grid point whose cell the coordinate [q] lies in: the integer [k]
    with [-1/2 <= q - k < 1/2]. *)
Definition nearest_grid_point (q : Q) : Z := Qfloor (q + (1 # 2)).

(** The grid points [ks] cover the support around [q]: every grid point
    whose distance to [q] lies in the support [-1/2, 1/2) is among them. *)
Definition covers_support (q : Q) (ks : list Z) : Prop :=
  forall k : Z, (- (1 # 2) <= q - inject_Z k < 1 # 2)%Q -> In k ks.

Section Assignment.
Context {P : Precision}.

(** The weights of a particle on the grid points [ks], where [offset k]
    is the [float_X] handed to the shape for grid point [k]. *)
Definition weights (offset : Z -> float_X) (ks : list Z) : list float_X :=
  map (fun k => NGP.ChargeAssignment.call (offset k)) ks.

(** The distance from the coordinate [x] to grid point [k] as [float_X]
    arithmetic forms it: [x - float_X( k )], rounded into the format. *)
Definition rounded_offset (x : float_X) (k : Z) : float_X :=
  sub_X x (float_X_of_Z k).

(** [offset k] is a [float_X] that holds the distance [q - k] exactly. *)
Definition exact_offset (q : Q) (offset : Z -> float_X) (k : Z) : Prop :=
  valid (offset k) = true /\ is_real (offset k) = true /\
  (SF2Q (offset k) == q - inject_Z k)%Q.

End Assignment.

(** ** Sample inputs in binary32 *)

(** 0.25, 1.25 and -0.75 *)
Definition quarter32 : float_X := S754_finite false 8388608 (-25).
Definition five_quarters32 : float_X := S754_finite false 10485760 (-23).
Definition neg_three_quarters32 : float_X := S754_finite true 12582912 (-24).

(** The largest binary32 below 0.5, and the binary32 of value 2. *)
Definition below_half32 : float_X := S754_finite false 16777215 (-25).
Definition two32 : float_X := S754_finite false 8388608 (-22).

(** 0.25 in binary64 *)
Definition quarter64 : float_X := S754_finite false 4503599627370496 (-54).

(** The offsets of the coordinate 1/4 to the grid points -1, 0 and 1. *)
Definition offsets32 (k : Z) : float_X :=
  match k with
  | -1 => five_quarters32
  | 0 => quarter32
  | 1 => neg_three_quarters32
  | _ => S754_nan
  end.

(** A decimal literal [n / d] rounded into binary32. *)
Definition decimal32 (n d : Z) : float_X :=
  SFdiv 24 128 (binary_normalize 24 128 n 0 false)
               (binary_normalize 24 128 d 0 false).

(** ** Facts about the format *)

Section Facts.
Context {P : Precision}.

Lemma digits2_pos_bounds (m : positive) :
  2 ^ (Zpos (digits2_pos m) - 1) <= Zpos m < 2 ^ Zpos (digits2_pos m).
Proof.
  induction m as [p IH | p IH |]; cbn [digits2_pos].
  - rewrite Pos2Z.inj_succ.
    replace (Z.succ (Zpos (digits2_pos p)) - 1) with (Z.succ (Zpos (digits2_pos p) - 1)) by lia.
    rewrite !Z.pow_succ_r by lia. lia.
  - rewrite Pos2Z.inj_succ.
    replace (Z.succ (Zpos (digits2_pos p)) - 1) with (Z.succ (Zpos (digits2_pos p) - 1)) by lia.
    rewrite !Z.pow_succ_r by lia. lia.
  - cbn. lia.
Qed.

Lemma valid_finite_inv s m e :
  valid (S754_finite s m e) = true ->
  Zpos (digits2_pos m) <= prec /\
  (- prec < e -> Zpos (digits2_pos m) = prec) /\
  e <= emax - prec.
Proof.
  unfold valid, valid_binary, bounded, canonical_mantissa, fexp, emin.
  pose proof prec_gt_1. pose proof prec_lt_emax.
  intros Hv; apply andb_true_iff in Hv as [H1 H2].
  apply Z.eqb_eq in H1. apply Z.leb_le in H2. lia.
Qed.

Lemma msb_eq : Zpos msb = 2 ^ (prec - 1).
Proof.
  unfold msb. apply Z2Pos.id. apply Z.pow_pos_nonneg; pose proof prec_gt_1; lia.
Qed.

Lemma pow2Q_pos (e : Z) : (0 < 2 ^ e)%Q.
Proof. apply Qpower_0_lt. reflexivity. Qed.

Lemma pow2Q_shift (n e : Z) :
  0 <= n -> (inject_Z (2 ^ n) * 2 ^ e == 2 ^ (n + e))%Q.
Proof.
  intros Hn. rewrite Zpower_Qpower by assumption.
  rewrite Qpower_plus by discriminate. reflexivity.
Qed.

Lemma scale_lt (a b e : Z) :
  (inject_Z a * 2 ^ e < inject_Z b * 2 ^ e)%Q <-> a < b.
Proof.
  rewrite Qmult_lt_r by apply pow2Q_pos. rewrite <- Zlt_Qlt. reflexivity.
Qed.

Lemma scale_le (a b e : Z) :
  (inject_Z a * 2 ^ e <= inject_Z b * 2 ^ e)%Q <-> a <= b.
Proof.
  rewrite Qmult_le_r by apply pow2Q_pos. rewrite <- Zle_Qle. reflexivity.
Qed.

Lemma SF2Q_half : (SF2Q half_X == 1 # 2)%Q.
Proof.
  unfold SF2Q, half_X, cond_Zopp. rewrite msb_eq.
  pose proof prec_gt_1.
  rewrite pow2Q_shift by lia.
  replace (prec - 1 + - prec) with (-1) by lia. reflexivity.
Qed.

Lemma SF2Q_one : (SF2Q one_X == 1)%Q.
Proof.
  unfold SF2Q, one_X, cond_Zopp. rewrite msb_eq.
  pose proof prec_gt_1.
  rewrite pow2Q_shift by lia.
  replace (prec - 1 + (1 - prec)) with 0 by lia. reflexivity.
Qed.


Lemma magnitude_lt_half (s : bool) (m : positive) (e : Z) :
  valid (S754_finite s m e) = true -> e < - prec ->
  (inject_Z (Zpos m) * 2 ^ e < 1 # 2)%Q.
Proof.
  intros Hv He. apply valid_finite_inv in Hv as (Hd & _ & _).
  pose proof (digits2_pos_bounds m) as [_ Hhi].
  pose proof prec_gt_1 as Hp.
  assert (Hq : (1 # 2 == inject_Z (2 ^ (-1 - e)) * 2 ^ e)%Q).
  { rewrite pow2Q_shift by lia. replace (-1 - e + e) with (-1) by lia. reflexivity. }
  rewrite Hq. apply scale_lt.
  apply Z.lt_le_trans with (1 := Hhi).
  apply Z.pow_le_mono_r; lia.
Qed.

Lemma magnitude_gt_half (s : bool) (m : positive) (e : Z) :
  valid (S754_finite s m e) = true -> - prec < e ->
  (1 <= inject_Z (Zpos m) * 2 ^ e)%Q.
Proof.
  intros Hv He. apply valid_finite_inv in Hv as (_ & Hn & _).
  pose proof (digits2_pos_bounds m) as [Hlo _].
  pose proof prec_gt_1 as Hp.
  rewrite (Hn He) in Hlo.
  apply Qle_trans with (inject_Z (2 ^ (prec - 1)) * 2 ^ e)%Q.
  - rewrite pow2Q_shift by lia.
    change 1%Q with (2 ^ 0)%Q. apply Qpower_le_compat_l; [lia | discriminate].
  - apply scale_le. exact Hlo.
Qed.

Lemma magnitude_at_half (m : positive) :
  ((inject_Z (Zpos m) * 2 ^ (- prec) < 1 # 2)%Q <-> (m < msb)%positive) /\
  ((inject_Z (Zpos m) * 2 ^ (- prec) <= 1 # 2)%Q <-> (m <= msb)%positive).
Proof.
  rewrite <- SF2Q_half. unfold SF2Q, half_X, cond_Zopp.
  rewrite scale_lt, scale_le. split; reflexivity.
Qed.

Lemma SF2Q_neg (m : positive) (e : Z) :
  (SF2Q (S754_finite true m e) == - (inject_Z (Zpos m) * 2 ^ e))%Q.
Proof.
  unfold SF2Q, cond_Zopp. change (- Zpos m) with (Zneg m).
  change (Zneg m) with (- Zpos m). rewrite inject_Z_opp. ring.
Qed.

Lemma magnitude_pos (m : positive) (e : Z) :
  (0 < inject_Z (Zpos m) * 2 ^ e)%Q.
Proof.
  apply Qmult_lt_0_compat; [reflexivity | apply pow2Q_pos].
Qed.

(** [x < 0.5_X] decides [x < 1/2] on the values. *)
Lemma SFltb_half_iff (x : float_X) :
  valid x = true -> is_real x = true ->
  (SFltb x half_X = true <-> (SF2Q x < 1 # 2)%Q).
Proof.
  destruct x as [s | s | | s m e]; intros Hv Hr; try discriminate Hr.
  - cbn. split; reflexivity.
  - destruct s.
    + rewrite SF2Q_neg. pose proof (magnitude_pos m e).
      cbn. split; [intros _; lra | reflexivity].
    + unfold SFltb, half_X, SF2Q, cond_Zopp; cbn [SFcompare].
      destruct (Z.compare_spec e (- prec)) as [He | He | He].
      * subst e. change (Pos.compare_cont Eq m msb) with (m ?= msb)%positive.
        rewrite (proj1 (magnitude_at_half m)).
        destruct (Pos.compare_spec m msb); split; intros; try discriminate; try reflexivity; lia.
      * pose proof (magnitude_lt_half _ _ _ Hv He). split; auto.
      * pose proof (magnitude_gt_half _ _ _ Hv He).
        split; [discriminate | intros; lra].
Qed.

(** [-0.5_X <= x] decides [-1/2 <= x] on the values. *)
Lemma SFleb_neg_half_iff (x : float_X) :
  valid x = true -> is_real x = true ->
  (SFleb (SFopp half_X) x = true <-> (- (1 # 2) <= SF2Q x)%Q).
Proof.
  destruct x as [s | s | | s m e]; intros Hv Hr; try discriminate Hr.
  - cbn. split; [discriminate | reflexivity].
  - destruct s.
    + rewrite SF2Q_neg.
      unfold SFleb, half_X, SFopp; cbn [SFcompare negb].
      destruct (Z.compare_spec (- prec) e) as [He | He | He].
      * subst e. change (Pos.compare_cont Eq msb m) with (msb ?= m)%positive.
        pose proof (proj2 (magnitude_at_half m)) as Hm.
        destruct (Pos.compare_spec msb m); cbn [CompOpp]; split; intros; try discriminate; try reflexivity.
        -- apply Qopp_le_compat. apply Hm. lia.
        -- assert ((inject_Z (Zpos m) * 2 ^ (- prec) <= 1 # 2)%Q) as Hle by lra.
           apply Hm in Hle. lia.
        -- apply Qopp_le_compat. apply Hm. lia.
      * pose proof (magnitude_gt_half _ _ _ Hv He).
        split; [discriminate | intros; lra].
      * pose proof (magnitude_lt_half _ _ _ Hv He). split; [intros; lra | reflexivity].
    + pose proof (magnitude_pos m e). unfold SF2Q, cond_Zopp.
      cbn. split; [intros _; lra | reflexivity].
Qed.

Lemma digits2_pos_msb : Zpos (digits2_pos msb) = prec.
Proof.
  pose proof (digits2_pos_bounds msb) as [Hlo Hhi]. rewrite msb_eq in Hlo, Hhi.
  pose proof prec_gt_1.
  apply Z.pow_le_mono_r_iff in Hlo; [ | lia | lia].
  apply Z.pow_lt_mono_r_iff in Hhi; [ | lia | lia]. lia.
Qed.

(** The literals are canonical members of the format. *)
Lemma half_X_valid : valid half_X = true.
Proof.
  unfold valid, half_X, valid_binary, bounded, canonical_mantissa, fexp, emin.
  rewrite digits2_pos_msb. pose proof prec_gt_1. pose proof prec_lt_emax.
  apply andb_true_iff; split; [apply Z.eqb_eq | apply Z.leb_le]; lia.
Qed.

Lemma one_X_valid : valid one_X = true.
Proof.
  unfold valid, one_X, valid_binary, bounded, canonical_mantissa, fexp, emin.
  rewrite digits2_pos_msb. pose proof prec_gt_1. pose proof prec_lt_emax.
  apply andb_true_iff; split; [apply Z.eqb_eq | apply Z.leb_le]; lia.
Qed.

End Facts.

(** At the two concrete formats the literals are what the library's own
    rounding makes of [1] and [1 * 2^-1]. *)
Example literals_32 :
  one_X (P := precision32Bit) = SFone 24 128 /\
  half_X (P := precision32Bit) = binary_normalize 24 128 1 (-1) false.
Proof. split; reflexivity. Qed.

Example literals_64 :
  one_X (P := precision64Bit) = SFone 53 1024 /\
  half_X (P := precision64Bit) = binary_normalize 53 1024 1 (-1) false.
Proof. split; reflexivity. Qed.

(** ** The general evaluator *)

Section ChargeAssignmentFacts.
Context {P : Precision}.
Import NGP.

Lemma call_true (x : float_X) :
  SFleb (SFopp half_X) x = true -> SFltb x half_X = true ->
  ChargeAssignment.call x = one_X.
Proof. unfold ChargeAssignment.call. intros -> ->. reflexivity. Qed.

Lemma call_false (x : float_X) :
  SFleb (SFopp half_X) x = false \/ SFltb x half_X = false ->
  ChargeAssignment.call x = zero_X.
Proof.
  unfold ChargeAssignment.call. intros [-> | ->]; [ | rewrite andb_false_r]; reflexivity.
Qed.

Lemma call_inside (x : float_X) :
  valid x = true -> is_real x = true ->
  (- (1 # 2) <= SF2Q x)%Q -> (SF2Q x < 1 # 2)%Q ->
  ChargeAssignment.call x = one_X.
Proof.
  intros Hv Hr Hlo Hhi. apply call_true.
  - apply SFleb_neg_half_iff; assumption.
  - apply SFltb_half_iff; assumption.
Qed.

Lemma call_outside (x : float_X) :
  valid x = true -> is_real x = true ->
  (SF2Q x < - (1 # 2))%Q \/ (1 # 2 <= SF2Q x)%Q ->
  ChargeAssignment.call x = zero_X.
Proof.
  intros Hv Hr Hout. apply call_false. destruct Hout as [Hlo | Hhi].
  - left. apply not_true_is_false. intros Hb.
    apply SFleb_neg_half_iff in Hb; [ | assumption | assumption]. lra.
  - right. apply not_true_is_false. intros Hb.
    apply SFltb_half_iff in Hb; [ | assumption | assumption]. lra.
Qed.

Lemma call_zero_or_one (x : float_X) :
  ChargeAssignment.call x = zero_X \/ ChargeAssignment.call x = one_X.
Proof.
  unfold ChargeAssignment.call.
  destruct (SFleb (SFopp half_X) x && SFltb x half_X); [right | left]; reflexivity.
Qed.

Lemma call_at_half : ChargeAssignment.call half_X = zero_X.
Proof.
  apply call_false. right. unfold SFltb, half_X; cbn [SFcompare].
  rewrite Z.compare_refl.
  change (Pos.compare_cont Eq msb msb) with (msb ?= msb)%positive.
  rewrite Pos.compare_refl. reflexivity.
Qed.

Lemma call_at_neg_half : ChargeAssignment.call (SFopp half_X) = one_X.
Proof.
  apply call_true.
  - unfold SFleb, half_X, SFopp; cbn [SFcompare negb]. rewrite Z.compare_refl.
    change (Pos.compare_cont Eq msb msb) with (msb ?= msb)%positive.
    rewrite Pos.compare_refl. reflexivity.
  - reflexivity.
Qed.

End ChargeAssignmentFacts.

(** ** One grid point per coordinate *)

Lemma nearest_grid_point_iff (q : Q) (k : Z) :
  (- (1 # 2) <= q - inject_Z k /\ q - inject_Z k < 1 # 2)%Q <->
  k = nearest_grid_point q.
Proof.
  unfold nearest_grid_point. split.
  - intros [Hlo Hhi].
    assert (Hk : (inject_Z k <= q + (1 # 2))%Q) by lra.
    apply Qfloor_resp_le in Hk. rewrite Qfloor_Z in Hk.
    pose proof (Qfloor_le (q + (1 # 2))) as Hf.
    assert (Hlt : (inject_Z (Qfloor (q + (1 # 2))) < inject_Z (k + 1))%Q).
    { rewrite inject_Z_plus. change (inject_Z 1) with 1%Q. lra. }
    rewrite <- Zlt_Qlt in Hlt. lia.
  - intros ->.
    pose proof (Qfloor_le (q + (1 # 2))) as Hf.
    pose proof (Qlt_floor (q + (1 # 2))) as Hc.
    rewrite inject_Z_plus in Hc. change (inject_Z 1) with 1%Q in Hc.
    split; lra.
Qed.

Section AssignmentFacts.
Context {P : Precision}.
Import NGP.

(** With an exact offset the weight of grid point [k] is 1 for the nearest
    grid point and 0 for every other one. *)
Lemma weight_of_grid_point (q : Q) (offset : Z -> float_X) (k : Z) :
  exact_offset q offset k ->
  ChargeAssignment.call (offset k) =
  float_X_of_bool (k =? nearest_grid_point q).
Proof.
  intros (Hv & Hr & Hq).
  destruct (Z.eqb_spec k (nearest_grid_point q)) as [Hk | Hk]; cbn [float_X_of_bool].
  - apply nearest_grid_point_iff in Hk as [Hlo Hhi].
    apply call_inside; try assumption; rewrite Hq; assumption.
  - apply call_outside; try assumption. rewrite Hq.
    destruct (Qlt_le_dec (q - inject_Z k) (- (1 # 2))) as [Hlo | Hlo]; [left; exact Hlo | ].
    destruct (Qlt_le_dec (q - inject_Z k) (1 # 2)) as [Hhi | Hhi]; [ | right; exact Hhi].
    exfalso. apply Hk. apply nearest_grid_point_iff. split; assumption.
Qed.

(** Grid points other than the nearest one contribute nothing. *)
Lemma sum_weights_away (q : Q) (offset : Z -> float_X) (ks : list Z) :
  (forall k, In k ks -> exact_offset q offset k) ->
  ~ In (nearest_grid_point q) ks ->
  sum_X (weights offset ks) = zero_X.
Proof.
  induction ks as [ | k ks IH]; intros Hex Hnot; [reflexivity | ].
  cbn [weights map sum_X fold_right].
  rewrite (weight_of_grid_point q) by (apply Hex; left; reflexivity).
  destruct (Z.eqb_spec k (nearest_grid_point q)) as [Hk | Hk].
  - exfalso. apply Hnot. left. exact Hk.
  - cbn [float_X_of_bool].
    change (fold_right add_X zero_X (map _ ks)) with (sum_X (weights offset ks)).
    rewrite IH.
    + reflexivity.
    + intros k' Hk'. apply Hex. right. exact Hk'.
    + intros Hin. apply Hnot. right. exact Hin.
Qed.

Lemma sum_weights_cover (q : Q) (offset : Z -> float_X) (ks : list Z) :
  NoDup ks ->
  (forall k, In k ks -> exact_offset q offset k) ->
  In (nearest_grid_point q) ks ->
  sum_X (weights offset ks) = one_X.
Proof.
  induction 1 as [ | k ks Hk Hnd IH]; intros Hex Hin; [destruct Hin | ].
  cbn [weights map sum_X fold_right].
  change (fold_right add_X zero_X (map _ ks)) with (sum_X (weights offset ks)).
  rewrite (weight_of_grid_point q) by (apply Hex; left; reflexivity).
  assert (Hex' : forall k', In k' ks -> exact_offset q offset k')
    by (intros k' Hk'; apply Hex; right; exact Hk').
  destruct (Z.eqb_spec k (nearest_grid_point q)) as [Heq | Hne];
    cbn [float_X_of_bool].
  - rewrite (sum_weights_away q); [reflexivity | exact Hex' | ].
    rewrite <- Heq. exact Hk.
  - destruct Hin as [Heq | Hin]; [contradiction | ].
    rewrite (IH Hex' Hin). reflexivity.
Qed.

End AssignmentFacts.

(** ** Scenarios *)

(** The scenarios listed for the general evaluator, in binary32. *)
Example scenarios_general_32 :
  let W := NGP.ChargeAssignment.call (P := precision32Bit) in
  W (S754_zero false) = one_X /\
  W (decimal32 4999 10000) = one_X /\
  W (decimal32 (-1) 2) = one_X /\
  W (decimal32 1 2) = zero_X /\
  W (decimal32 (-50001) 100000) = zero_X /\
  W (SFpred 24 128 (SFopp half_X)) = zero_X /\
  W (S754_infinity false) = zero_X /\
  W (S754_infinity true) = zero_X.
Proof. repeat split; vm_compute; reflexivity. Qed.

Example scenarios_on_support_32 :
  let W := NGP.ChargeAssignmentOnSupport.call (P := precision32Bit) in
  W (decimal32 3 10) = one_X /\ W (decimal32 (-49) 100) = one_X.
Proof. split; reflexivity. Qed.

(** ** Properties of the shape *)

Section Properties.
Context {P : Precision}.
Import NGP.

(** C1. On every float that stands for a real number, the general evaluator
    returns [1.0] when the number lies in [-1/2, 1/2) and [0.0] when it lies
    outside; at the two ends of the interval it returns [1.0] at [-0.5] and
    [0.0] at [0.5]. *)
Theorem ChargeAssignment_indicator (x : float_X) :
  valid x = true -> is_real x = true ->
  ((- (1 # 2) <= SF2Q x /\ SF2Q x < 1 # 2)%Q ->
   ChargeAssignment.call x = one_X) /\
  ((SF2Q x < - (1 # 2) \/ 1 # 2 <= SF2Q x)%Q ->
   ChargeAssignment.call x = zero_X) /\
  ChargeAssignment.call (SFopp half_X) = one_X /\
  ChargeAssignment.call half_X = zero_X.
Proof.
  intros Hv Hr. repeat split.
  - intros [Hlo Hhi]. apply call_inside; assumption.
  - intros Hout. apply call_outside; assumption.
  - apply call_at_neg_half.
  - apply call_at_half.
Qed.

(** C2, as amended. Partition of unity for exact distances: for every real
    coordinate [q], the weights of the general evaluator at the distances
    [q - k], summed over any set of distinct integer grid points [k] that
    covers the support around [q], add up to exactly [1.0], provided each
    distance is handed over as a float that holds it exactly. *)
Theorem partition_of_unity (q : Q) (offset : Z -> float_X) (ks : list Z) :
  NoDup ks ->
  covers_support q ks ->
  (forall k, In k ks -> exact_offset q offset k) ->
  sum_X (weights offset ks) = one_X.
Proof.
  intros Hnd Hcov Hex. apply (sum_weights_cover q); try assumption.
  apply Hcov. apply nearest_grid_point_iff. reflexivity.
Qed.

(** C3. On every float that stands for a real number of
    [-support/2, support/2), which is [-1/2, 1/2) for NGP, the general
    evaluator and the evaluator restricted to the support return the same
    value. *)
Theorem on_support_agrees (x : float_X) :
  valid x = true -> is_real x = true ->
  (- (inject_Z ChargeAssignmentOnSupport.support / 2) <= SF2Q x /\
   SF2Q x < inject_Z ChargeAssignmentOnSupport.support / 2)%Q ->
  ChargeAssignment.call x = ChargeAssignmentOnSupport.call x.
Proof.
  intros Hv Hr [Hlo Hhi]. unfold ChargeAssignmentOnSupport.call.
  change (inject_Z ChargeAssignmentOnSupport.support / 2)%Q
    with (1 # 2)%Q in Hlo, Hhi.
  apply call_inside; assumption.
Qed.

(** C4. The evaluator restricted to the support returns [1.0], the float of
    value one, on every input whatsoever. *)
Theorem ChargeAssignmentOnSupport_constant (x : float_X) :
  ChargeAssignmentOnSupport.call x = one_X /\
  (SF2Q (ChargeAssignmentOnSupport.call x) == 1)%Q.
Proof.
  split; [reflexivity | apply SF2Q_one].
Qed.

(** C5. The weight returned by either evaluator is a finite number of the
    interval [0, 1], on every input. *)
Theorem weights_in_unit_interval (x : float_X) :
  (is_real (ChargeAssignment.call x) = true /\
   (0 <= SF2Q (ChargeAssignment.call x) <= 1)%Q) /\
  (is_real (ChargeAssignmentOnSupport.call x) = true /\
   (0 <= SF2Q (ChargeAssignmentOnSupport.call x) <= 1)%Q).
Proof.
  split.
  - destruct (call_zero_or_one x) as [-> | ->].
    + repeat split; discriminate.
    + rewrite SF2Q_one. repeat split; discriminate.
  - unfold ChargeAssignmentOnSupport.call. rewrite SF2Q_one.
    repeat split; discriminate.
Qed.

(** C8. On NaN the general evaluator returns [0.0]: both comparisons are
    false, and NaN is not propagated. *)
Theorem ChargeAssignment_nan :
  SFleb (SFopp half_X) S754_nan = false /\
  SFltb S754_nan half_X = false /\
  ChargeAssignment.call S754_nan = zero_X.
Proof.
  repeat split.
Qed.

(** C9. The general evaluator is two-valued: on every input its result is
    the float [0.0], of value zero, or the float [1.0], of value one. *)
Theorem ChargeAssignment_two_valued (x : float_X) :
  (ChargeAssignment.call x = zero_X /\
   (SF2Q (ChargeAssignment.call x) == 0)%Q) \/
  (ChargeAssignment.call x = one_X /\
   (SF2Q (ChargeAssignment.call x) == 1)%Q).
Proof.
  destruct (call_zero_or_one x) as [H | H]; [left | right]; rewrite H; split;
    try reflexivity.
  apply SF2Q_one.
Qed.

End Properties.

(** C6. The published support of the NGP shape is the integer constant 1,
    which meets the family's requirement of a support of at least 1. *)
Theorem support_is_one :
  shared_NGP.NGP.support = 1 /\ 1 <= shared_NGP.NGP.support.
Proof.
  split; [reflexivity | discriminate].
Qed.

(** C10. The support seen through [NGP], [NGP::ChargeAssignment] and
    [NGP::ChargeAssignmentOnSupport] is the one constant of their common
    base, 1. *)
Theorem support_shared :
  NGP.support = shared_NGP.NGP.support /\
  NGP.ChargeAssignment.support = shared_NGP.NGP.support /\
  NGP.ChargeAssignmentOnSupport.support = shared_NGP.NGP.support /\
  NGP.support = 1 /\
  NGP.ChargeAssignment.support = 1 /\
  NGP.ChargeAssignmentOnSupport.support = 1.
Proof.
  repeat split.
Qed.

(** ** The properties at sample inputs *)

Lemma ChargeAssignment_indicator_witness :
  valid (P := precision32Bit) quarter32 = true /\
  is_real quarter32 = true /\
  NGP.ChargeAssignment.call (P := precision32Bit) quarter32 = one_X.
Proof.
  split; [reflexivity | split; [reflexivity | ]].
  apply (proj1 (ChargeAssignment_indicator (P := precision32Bit)
                  quarter32 eq_refl eq_refl)).
  split; vm_compute; [discriminate | reflexivity].
Defined.

Lemma partition_of_unity_witness :
  covers_support (1 # 4) [-1; 0; 1] /\
  sum_X (P := precision32Bit) (weights offsets32 [-1; 0; 1]) = one_X.
Proof.
  assert (Hcov : covers_support (1 # 4) [-1; 0; 1]).
  { intros k Hk. apply nearest_grid_point_iff in Hk. subst k.
    right; left; reflexivity. }
  split; [exact Hcov | ].
  apply (partition_of_unity (P := precision32Bit) (1 # 4) offsets32 [-1; 0; 1]).
  - repeat constructor; cbn; intuition discriminate.
  - exact Hcov.
  - intros k [<- | [<- | [<- | []]]]; repeat split.
Defined.

Lemma on_support_agrees_witness :
  valid (P := precision32Bit) quarter32 = true /\
  is_real quarter32 = true /\
  NGP.ChargeAssignment.call (P := precision32Bit) quarter32
  = NGP.ChargeAssignmentOnSupport.call quarter32.
Proof.
  split; [reflexivity | split; [reflexivity | ]].
  apply (on_support_agrees (P := precision32Bit) quarter32 eq_refl eq_refl).
  split; vm_compute; [discriminate | reflexivity].
Defined.

(** ** Further properties of the shape *)

Section FurtherFacts.
Context {P : Precision}.
Import NGP.

Lemma one_X_neq_zero_X : one_X <> zero_X.
Proof. discriminate. Qed.

(** Infinities and NaN lie outside the support. *)
Lemma call_not_real (x : float_X) :
  is_real x = false -> ChargeAssignment.call x = zero_X.
Proof.
  destruct x as [s | [ | ] | | s m e]; intros Hr; try discriminate Hr;
    reflexivity.
Qed.

(** The inputs on which the general evaluator answers [1.0]. *)
Lemma call_one_iff (x : float_X) :
  valid x = true ->
  (ChargeAssignment.call x = one_X <->
   is_real x = true /\ (- (1 # 2) <= SF2Q x /\ SF2Q x < 1 # 2)%Q).
Proof.
  intros Hv. split.
  - intros Hone. destruct (is_real x) eqn:Hr.
    + split; [reflexivity | ].
      destruct (Qlt_le_dec (SF2Q x) (- (1 # 2))) as [Hlo | Hlo].
      { rewrite call_outside in Hone by (try assumption; left; exact Hlo).
        discriminate Hone. }
      destruct (Qlt_le_dec (SF2Q x) (1 # 2)) as [Hhi | Hhi].
      { split; assumption. }
      rewrite call_outside in Hone by (try assumption; right; exact Hhi).
      discriminate Hone.
    + rewrite call_not_real in Hone by assumption. discriminate Hone.
  - intros (Hr & Hlo & Hhi). apply call_inside; assumption.
Qed.

Lemma valid_SFopp (x : float_X) : valid (SFopp x) = valid x.
Proof. destruct x; reflexivity. Qed.

Lemma is_real_SFopp (x : float_X) : is_real (SFopp x) = is_real x.
Proof. destruct x; reflexivity. Qed.

Lemma SF2Q_SFopp (x : float_X) : (SF2Q (SFopp x) == - SF2Q x)%Q.
Proof.
  destruct x as [s | s | | s m e]; try reflexivity.
  unfold SFopp, SF2Q, cond_Zopp. destruct s; cbn [negb].
  - change (- Zpos m) with (Zneg m). change (Zneg m) with (- Zpos m).
    rewrite inject_Z_opp. ring.
  - change (- Zpos m) with (Zneg m). change (Zneg m) with (- Zpos m).
    rewrite inject_Z_opp. ring.
Qed.

(** An integer other than the one a distance of [-1/2, 1/2) belongs to is
    at least as far away. *)
Lemma nearest_is_closest (q : Q) (k j : Z) :
  (- (1 # 2) <= q - inject_Z k /\ q - inject_Z k < 1 # 2)%Q ->
  (Qabs (q - inject_Z k) <= Qabs (q - inject_Z j))%Q.
Proof.
  intros [Hlo Hhi].
  assert (Hk : (Qabs (q - inject_Z k) <= 1 # 2)%Q).
  { apply Qabs_Qle_condition. split; lra. }
  destruct (Z.lt_trichotomy j k) as [Hjk | [Hjk | Hjk]].
  - assert (Hq : (inject_Z j + 1 <= inject_Z k)%Q).
    { change 1%Q with (inject_Z 1). rewrite <- inject_Z_plus.
      rewrite <- Zle_Qle. lia. }
    pose proof (Qle_Qabs (q - inject_Z j)). lra.
  - subst j. apply Qle_refl.
  - assert (Hq : (inject_Z k + 1 <= inject_Z j)%Q).
    { change 1%Q with (inject_Z 1). rewrite <- inject_Z_plus.
      rewrite <- Zle_Qle. lia. }
    pose proof (Qle_Qabs (- (q - inject_Z j))) as Ha.
    rewrite Qabs_opp in Ha. lra.
Qed.

End FurtherFacts.

Section FurtherProperties.
Context {P : Precision}.
Import NGP.

(** X1. The support is the width of the area where the general evaluator
    is non-zero: on a float of the format the result differs from [0.0]
    exactly when the input is a real number of [-support/2, support/2);
    infinities and NaN get [0.0]. *)
Theorem support_is_nonzero_region (x : float_X) :
  valid x = true ->
  (ChargeAssignment.call x <> zero_X <->
   is_real x = true /\
   (- (inject_Z ChargeAssignment.support / 2) <= SF2Q x /\
    SF2Q x < inject_Z ChargeAssignment.support / 2)%Q).
Proof.
  intros Hv.
  change (inject_Z ChargeAssignment.support / 2)%Q with (1 # 2)%Q.
  rewrite <- (call_one_iff x Hv).
  destruct (call_zero_or_one x) as [H | H]; rewrite H; split; intros H';
    try reflexivity; try discriminate; congruence.
Qed.

(** X2. The evaluator restricted to the support agrees with the general
    one on the support only: on a float of the format the two results are
    equal exactly when the input is a real number of
    [-support/2, support/2).  Everywhere else the restricted evaluator
    answers [1.0] where the general one answers [0.0]. *)
Theorem on_support_agrees_only_on_support (x : float_X) :
  valid x = true ->
  (ChargeAssignment.call x = ChargeAssignmentOnSupport.call x <->
   is_real x = true /\
   (- (inject_Z ChargeAssignmentOnSupport.support / 2) <= SF2Q x /\
    SF2Q x < inject_Z ChargeAssignmentOnSupport.support / 2)%Q) /\
  (ChargeAssignment.call x <> ChargeAssignmentOnSupport.call x ->
   ChargeAssignment.call x = zero_X /\
   ChargeAssignmentOnSupport.call x = one_X).
Proof.
  intros Hv. split.
  - change (inject_Z ChargeAssignmentOnSupport.support / 2)%Q with (1 # 2)%Q.
    unfold ChargeAssignmentOnSupport.call. apply call_one_iff. exact Hv.
  - unfold ChargeAssignmentOnSupport.call. intros Hne.
    destruct (call_zero_or_one x) as [H | H]; [split; [exact H | reflexivity] | ].
    contradiction.
Qed.

(** X3. Nearest grid point: handed the exact distance [q - k], the general
    evaluator gives grid point [k] the weight [1.0] exactly when [k] is
    [floor (q + 1/2)]; that grid point is at least as close to [q] as every
    other one, and a coordinate halfway between two grid points goes to the
    upper one. *)
Theorem weight_goes_to_nearest_grid_point
  (q : Q) (offset : Z -> float_X) (k : Z) :
  exact_offset q offset k ->
  (ChargeAssignment.call (offset k) = one_X <-> k = nearest_grid_point q) /\
  (ChargeAssignment.call (offset k) = one_X ->
   forall j : Z, (Qabs (q - inject_Z k) <= Qabs (q - inject_Z j))%Q) /\
  ((q - inject_Z k == - (1 # 2))%Q ->
   ChargeAssignment.call (offset k) = one_X) /\
  ((q - inject_Z k == 1 # 2)%Q ->
   ChargeAssignment.call (offset k) = zero_X).
Proof.
  intros Hex. pose proof Hex as (Hv & Hr & Hq).
  assert (Hiff : ChargeAssignment.call (offset k) = one_X <->
                 (- (1 # 2) <= q - inject_Z k /\ q - inject_Z k < 1 # 2)%Q).
  { rewrite (call_one_iff _ Hv), Hq. intuition. }
  repeat split.
  - intros Hone. apply nearest_grid_point_iff. apply Hiff. exact Hone.
  - intros Hk. apply Hiff. apply nearest_grid_point_iff. exact Hk.
  - intros Hone j. apply nearest_is_closest. apply Hiff. exact Hone.
  - intros Hlo. apply Hiff. rewrite Hlo. split; discriminate || reflexivity.
  - intros Hhi. apply call_outside; try assumption. right. rewrite Hq, Hhi.
    discriminate.
Qed.

(** X4. No weight is created: over any set of distinct grid points, each
    handed its exact distance to [q], the weights add up to [1.0] when the
    set contains the nearest grid point and to [0.0] when it does not;
    never to more. *)
Theorem total_weight_zero_or_one
  (q : Q) (offset : Z -> float_X) (ks : list Z) :
  NoDup ks ->
  (forall k, In k ks -> exact_offset q offset k) ->
  (In (nearest_grid_point q) ks -> sum_X (weights offset ks) = one_X) /\
  (~ In (nearest_grid_point q) ks -> sum_X (weights offset ks) = zero_X).
Proof.
  intros Hnd Hex. split.
  - intros Hin. apply (sum_weights_cover q); assumption.
  - intros Hnot. apply (sum_weights_away q); assumption.
Qed.

(** X5. The shape is even away from the ends of the support: on a float of
    the format whose value is neither [1/2] nor [-1/2], negating the input
    does not change the result of the general evaluator. *)
Theorem ChargeAssignment_even_off_boundary (x : float_X) :
  valid x = true ->
  ~ (SF2Q x == 1 # 2)%Q -> ~ (SF2Q x == - (1 # 2))%Q ->
  ChargeAssignment.call (SFopp x) = ChargeAssignment.call x.
Proof.
  intros Hv Hp Hn. destruct (is_real x) eqn:Hr.
  - pose proof (SF2Q_SFopp x) as Ho.
    assert (Hv' : valid (SFopp x) = true) by (rewrite valid_SFopp; exact Hv).
    assert (Hr' : is_real (SFopp x) = true) by (rewrite is_real_SFopp; exact Hr).
    destruct (Qlt_le_dec (SF2Q x) (- (1 # 2))) as [Hlo | Hlo].
    { rewrite (call_outside x) by (try assumption; left; exact Hlo).
      apply call_outside; try assumption. right. lra. }
    destruct (Qlt_le_dec (1 # 2) (SF2Q x)) as [Hhi | Hhi].
    { rewrite (call_outside x) by (try assumption; right; lra).
      apply call_outside; try assumption. left. lra. }
    assert (Hlo' : (- (1 # 2) < SF2Q x)%Q).
    { apply Qnot_le_lt. intros Hle. apply Hn. apply Qle_antisym; assumption. }
    assert (Hhi' : (SF2Q x < 1 # 2)%Q).
    { apply Qnot_le_lt. intros Hle. apply Hp. apply Qle_antisym; assumption. }
    rewrite (call_inside x) by (try assumption; lra).
    apply call_inside; try assumption; lra.
  - rewrite (call_not_real x) by exact Hr.
    apply call_not_real. rewrite is_real_SFopp. exact Hr.
Qed.

End FurtherProperties.

(** X6. The shape does not depend on the precision [float_X] is built
    with: two floats of two formats that stand for the same real number
    get results of the same value from the general evaluator. *)
Theorem ChargeAssignment_across_precisions
  (P1 P2 : Precision) (x1 x2 : float_X) :
  valid (P := P1) x1 = true -> is_real x1 = true ->
  valid (P := P2) x2 = true -> is_real x2 = true ->
  (SF2Q x1 == SF2Q x2)%Q ->
  (SF2Q (NGP.ChargeAssignment.call (P := P1) x1)
   == SF2Q (NGP.ChargeAssignment.call (P := P2) x2))%Q.
Proof.
  intros Hv1 Hr1 Hv2 Hr2 Heq.
  destruct (Qlt_le_dec (SF2Q x1) (- (1 # 2))) as [Hlo | Hlo].
  { rewrite (call_outside (P := P1) x1) by (try assumption; left; exact Hlo).
    rewrite (call_outside (P := P2) x2) by (try assumption; left; lra).
    reflexivity. }
  destruct (Qlt_le_dec (SF2Q x1) (1 # 2)) as [Hhi | Hhi].
  - rewrite (call_inside (P := P1) x1) by assumption.
    rewrite (call_inside (P := P2) x2) by (try assumption; lra).
    rewrite !SF2Q_one. reflexivity.
  - rewrite (call_outside (P := P1) x1) by (try assumption; right; exact Hhi).
    rewrite (call_outside (P := P2) x2) by (try assumption; right; lra).
    reflexivity.
Qed.

(** ** The further properties at sample inputs *)

Lemma support_is_nonzero_region_witness :
  valid (P := precision32Bit) quarter32 = true /\
  NGP.ChargeAssignment.call (P := precision32Bit) quarter32 <> zero_X.
Proof.
  split; [reflexivity | ].
  apply (proj2 (support_is_nonzero_region (P := precision32Bit)
                  quarter32 eq_refl)).
  split; [reflexivity | split; vm_compute; [discriminate | reflexivity]].
Defined.

Lemma on_support_agrees_only_on_support_witness :
  valid (P := precision32Bit) (S754_infinity false) = true /\
  NGP.ChargeAssignment.call (P := precision32Bit) (S754_infinity false)
  <> NGP.ChargeAssignmentOnSupport.call (S754_infinity false).
Proof.
  split; [reflexivity | ].
  intros Heq.
  apply (proj1 (proj1 (on_support_agrees_only_on_support (P := precision32Bit)
                         (S754_infinity false) eq_refl))) in Heq.
  destruct Heq as [Hr _]. discriminate Hr.
Defined.

Lemma weight_goes_to_nearest_grid_point_witness :
  exact_offset (P := precision32Bit) (1 # 4) offsets32 0 /\
  NGP.ChargeAssignment.call (P := precision32Bit) (offsets32 0) = one_X.
Proof.
  assert (Hex : exact_offset (P := precision32Bit) (1 # 4) offsets32 0)
    by (repeat split).
  split; [exact Hex | ].
  apply (proj1 (weight_goes_to_nearest_grid_point (P := precision32Bit)
                  (1 # 4) offsets32 0 Hex)).
  reflexivity.
Defined.

Lemma total_weight_zero_or_one_witness :
  sum_X (P := precision32Bit) (weights offsets32 [-1; 1]) = zero_X /\
  sum_X (P := precision32Bit) (weights offsets32 [-1; 0; 1]) = one_X.
Proof.
  split.
  - apply (total_weight_zero_or_one (P := precision32Bit)
             (1 # 4) offsets32 [-1; 1]).
    + repeat constructor; cbn; intuition discriminate.
    + intros k [<- | [<- | []]]; repeat split.
    + cbn. intuition discriminate.
  - apply (total_weight_zero_or_one (P := precision32Bit)
             (1 # 4) offsets32 [-1; 0; 1]).
    + repeat constructor; cbn; intuition discriminate.
    + intros k [<- | [<- | [<- | []]]]; repeat split.
    + right; left; reflexivity.
Defined.

Lemma ChargeAssignment_even_off_boundary_witness :
  valid (P := precision32Bit) quarter32 = true /\
  NGP.ChargeAssignment.call (P := precision32Bit) (SFopp quarter32)
  = NGP.ChargeAssignment.call quarter32.
Proof.
  split; [reflexivity | ].
  apply (ChargeAssignment_even_off_boundary (P := precision32Bit)
           quarter32 eq_refl); vm_compute; intros H; discriminate H.
Defined.

Lemma ChargeAssignment_across_precisions_witness :
  valid (P := precision32Bit) quarter32 = true /\
  valid (P := precision64Bit) quarter64 = true /\
  (SF2Q (NGP.ChargeAssignment.call (P := precision32Bit) quarter32)
   == SF2Q (NGP.ChargeAssignment.call (P := precision64Bit) quarter64))%Q.
Proof.
  split; [reflexivity | split; [reflexivity | ]].
  apply (ChargeAssignment_across_precisions precision32Bit precision64Bit
           quarter32 quarter64 eq_refl eq_refl eq_refl eq_refl).
  reflexivity.
Defined.

(** ** Partition of unity and rounded distances *)

(** C2, as stated, fails on floats.  The coordinate is the largest binary32
    below 0.5 and the grid points are 0 and 1, which cover the support
    around it.  The distance to grid point 0 is the coordinate itself; the
    distance to grid point 1, [x - 1.0], is not a binary32 and rounds to
    [-0.5].  Both distances lie in [-1/2, 1/2), both grid points get weight
    [1.0], and the weights add up to [2.0]. *)
Lemma partition_of_unity_counterexample :
  valid (P := precision32Bit) below_half32 = true /\
  is_real below_half32 = true /\
  NoDup [0; 1] /\
  covers_support (SF2Q below_half32) [0; 1] /\
  rounded_offset (P := precision32Bit) below_half32 0 = below_half32 /\
  rounded_offset (P := precision32Bit) below_half32 1 = SFopp half_X /\
  weights (P := precision32Bit) (rounded_offset below_half32) [0; 1]
  = [one_X; one_X] /\
  sum_X (P := precision32Bit) (weights (rounded_offset below_half32) [0; 1])
  = two32 /\
  sum_X (P := precision32Bit) (weights (rounded_offset below_half32) [0; 1])
  <> one_X.
Proof.
  repeat split; try reflexivity.
  - repeat constructor; cbn; intuition discriminate.
  - intros k Hk. apply nearest_grid_point_iff in Hk. subst k.
    left. reflexivity.
  - discriminate.
Qed.

(** ** A remark on callers *)

(** The partition of unity takes the distances as they are.  A caller that
    forms them by a rounded float subtraction hands over rounded
    distances: from the largest binary32 below 0.5 the distance to grid
    point 1 rounds to -0.5, so that grid points 0 and 1 both get weight
    1.0.  The evaluator is exact on what it is given. *)
Remark rounded_subtraction_32 :
  let x := SFpred 24 128 (half_X (P := precision32Bit)) in
  let W := NGP.ChargeAssignment.call (P := precision32Bit) in
  SFsub 24 128 x zero_X = x /\
  SFsub 24 128 x one_X = SFopp half_X /\
  W (SFsub 24 128 x zero_X) = one_X /\
  W (SFsub 24 128 x one_X) = one_X.
Proof. repeat split; vm_compute; reflexivity. Qed.

(** The same happens in binary64. *)
Remark rounded_subtraction_64 :
  let half := half_X (P := precision64Bit) in
  let one := one_X (P := precision64Bit) in
  let x := SFpred 53 1024 half in
  let W := NGP.ChargeAssignment.call (P := precision64Bit) in
  SFsub 53 1024 x one = SFopp half /\
  W (SFsub 53 1024 x zero_X) = one /\
  W (SFsub 53 1024 x one) = one.
Proof. repeat split; vm_compute; reflexivity. Qed.
